(** * Vaultrunner.c: the argument-forwarding launcher

    A shallow embedding of [main] from [src/Vaultrunner.c]:

    <<
      char command[1024] = "python3 main.py";
      for (int i = 1; i < argc; i++) {
          strcat(command, " ");
          strcat(command, argv[i]);
      }
      int ret = system(command);
      return ret;
    >>

    The buffer [command] is a list of 1024 characters updated by index;
    [strcat] is the C library routine, which performs no bounds check.
    The routines work on a piece of memory and report the first access
    outside it as [OutOfBounds].  Run on the array alone ([build_command],
    [main]) they locate the first store past [command[1023]]; run on the
    array together with the bytes of the stack behind it ([build_on],
    [main_on]) they show what the unchecked stores do when they land in
    those bytes.  The call to [system] is the only interaction of the
    program with its environment. *)

From Stdlib Require Import ZArith Ascii String Lia.
From stdpp Require Import base list.

Open Scope string_scope.
Open Scope nat_scope.
Open Scope list_scope.

(** [length] is the length of a list; [String.length] that of a string. *)
Abbreviation length := List.length.

(** ** Characters, C strings and the buffer *)

Definition NUL : ascii := Ascii.zero.

Definition is_nul (c : ascii) : bool := Ascii.eqb c NUL.

(** The C string denoted by a sequence of characters: what a reader that
    stops at the first terminator sees. *)
Fixpoint c_str (s : string) : string :=
  match s with
  | EmptyString => EmptyString
  | String c r => if is_nul c then EmptyString else String c (c_str r)
  end.

Fixpoint nul_free (s : string) : bool :=
  match s with
  | EmptyString => true
  | String c r => negb (is_nul c) && nul_free r
  end.

(** [sizeof command] *)
Definition BUFSZ : nat := 1024.

Abbreviation buffer := (list ascii).

(** Outcome of a computation over the buffer: a value, or the offset of
    the first access that falls outside the array. *)
Inductive outcome (A : Type) : Type :=
  | Normal (a : A)
  | OutOfBounds (off : nat).
Arguments Normal {A} a.
Arguments OutOfBounds {A} off.

#[global] Instance outcome_ret : MRet outcome := fun A a => Normal a.

#[global] Instance outcome_bind : MBind outcome := fun A B f m =>
  match m with
  | Normal a => f a
  | OutOfBounds off => OutOfBounds off
  end.

(** [buf[off] = c] *)
Definition store (buf : buffer) (off : nat) (c : ascii) : outcome buffer :=
  if off <? length buf then Normal (<[off := c]> buf) else OutOfBounds off.

(** [strlen]: offset of the first terminator, scanning from [off]. *)
Fixpoint scan_nul (buf : buffer) (off : nat) : outcome nat :=
  match buf with
  | [] => OutOfBounds off
  | c :: rest => if is_nul c then Normal off else scan_nul rest (S off)
  end.

Definition strlen (buf : buffer) : outcome nat := scan_nul buf 0.

(** The copying loop of [strcat]: the characters of [src] up to and
    including its terminator are stored from offset [off] on. *)
Fixpoint copy_from (buf : buffer) (off : nat) (src : string) : outcome buffer :=
  match src with
  | EmptyString => store buf off NUL
  | String c r =>
      if is_nul c then store buf off NUL
      else b ← store buf off c; copy_from b (S off) r
  end.

Definition strcat (dst : buffer) (src : string) : outcome buffer :=
  n ← strlen dst; copy_from dst n src.

(** The string a callee reads through the pointer [command]. *)
Fixpoint read_str (buf : buffer) : string :=
  match buf with
  | [] => EmptyString
  | c :: rest => if is_nul c then EmptyString else String c (read_str rest)
  end.

(** ** The body of [main] *)

Definition PREFIX : string := "python3 main.py".

(** [char command[1024] = "python3 main.py";] the characters of the
    literal, the remainder of the array filled with zeros. *)
Definition init_command : buffer :=
  list_ascii_of_string PREFIX ++ replicate (BUFSZ - String.length PREFIX) NUL.

(** The loop [for (i = 1; i < argc; i++)], over [argv[1..argc-1]]. *)
Fixpoint append_args (command : buffer) (args : list string) : outcome buffer :=
  match args with
  | [] => Normal command
  | a :: rest =>
      b1 ← strcat command " ";
      b2 ← strcat b1 a;
      append_args b2 rest
  end.

(** Lines 8-14: the buffer handed to [system], for the argument vector
    [argv] ([argv[0]] is the program's own name and is skipped). *)
Definition build_command (argv : list string) : outcome buffer :=
  append_args init_command (drop 1 argv).

(** ** The program and its environment *)

Inductive stream : Type := Stdout | Stderr.

(** What a run of the process does, seen from outside: it calls
    [system] and continues with the returned status, writes to one of its
    output streams, returns from [main], or has no defined behaviour. *)
Inductive prog : Type :=
  | Return (ret : Z)
  | System (command : string) (k : Z -> prog)
  | Fputs (fd : stream) (text : string) (k : prog)
  | Undefined (off : nat).

(** [int main(int argc, char *argv[])], with [argc = length argv], on the
    array alone: a store outside the array ends the run where it
    happens, as in a build whose [strcat] checks the size of its
    destination.  [main_on] below is the run with the stack behind the
    array; the two agree whenever the command line fits the array. *)
Definition main (argv : list string) : prog :=
  match build_command argv with
  | Normal command => System (read_str command) (fun ret => Return ret)
  | OutOfBounds off => Undefined off
  end.

(** The state of the environment a run can change. *)
Record world : Type := World {
  children : list string;
  output : list (stream * string)
}.

Definition spawn (c : string) (w : world) : world :=
  {| children := children w ++ [c]; output := output w |}.

Definition emit (fd : stream) (t : string) (w : world) : world :=
  {| children := children w; output := output w ++ [(fd, t)] |}.

(** A run against a shell [sh] that maps the command line it is given to
    the status [system] returns for it. *)
Fixpoint exec (sh : string -> Z) (p : prog) (w : world) : outcome Z * world :=
  match p with
  | Return ret => (Normal ret, w)
  | System c k => exec sh (k (sh c)) (spawn c w)
  | Fputs fd t k => exec sh k (emit fd t w)
  | Undefined off => (OutOfBounds off, w)
  end.

Definition run (sh : string -> Z) (argv : list string) (w : world)
  : outcome Z * world :=
  exec sh (main argv) w.

Definition initial : world := {| children := []; output := [] |}.

(** ** The array on the stack

    [behind] are the bytes of the stack that follow the array and that a
    store can reach: [strcat] does not know where the array ends and
    goes on into them. *)
Definition declare_command (behind : list ascii) : buffer :=
  init_command ++ behind.

(** Lines 8-14 on that memory. *)
Definition build_on (behind : list ascii) (argv : list string)
  : outcome buffer :=
  append_args (declare_command behind) (drop 1 argv).

(** [main] on that memory.  [system] is called on the string that
    starts at [command], wherever its terminator was stored.  Once a
    store has left the array the bytes behind it are no longer what the
    compiler put there (a saved register, a return address, a guard
    value), so nothing is known about the return from [main]. *)
Definition main_on (behind : list ascii) (argv : list string) : prog :=
  match build_on behind argv with
  | Normal memory =>
      System (read_str memory)
        (if String.length (read_str memory) <? BUFSZ
         then fun ret => Return ret
         else fun _ => Undefined BUFSZ)
  | OutOfBounds off => Undefined off
  end.

Definition run_on (behind : list ascii) (sh : string -> Z)
    (argv : list string) (w : world) : outcome Z * world :=
  exec sh (main_on behind argv) w.

(** ** The platform: status words of [system] and of process exit

    These are the host's conventions (POSIX [<sys/wait.h>] and [exit]),
    not code of the program: [system] returns the termination status of
    the shell in the format of [waitpid], and a process that returns
    [ret] from [main] makes [ret & 0377] available to its parent. *)
Module Posix.

Definition W_EXITCODE (code sig : Z) : Z := Z.lor (Z.shiftl code 8) sig.

Definition WTERMSIG (status : Z) : Z := Z.land status 127.

Definition WIFEXITED (status : Z) : bool := (WTERMSIG status =? 0)%Z.

Definition WEXITSTATUS (status : Z) : Z :=
  Z.shiftr (Z.land status 65280) 8.

Definition exit_status (ret : Z) : Z := Z.land ret 255.

(** Exit code of a shell that cannot find the command. *)
Definition SH_NOT_FOUND : Z := 127.

End Posix.

(** The exit status of the process after a run, when it has one. *)
Definition exit_code (r : outcome Z * world) : option Z :=
  match fst r with
  | Normal ret => Some (Posix.exit_status ret)
  | OutOfBounds _ => None
  end.

(** ** The command line, as the specification words it

    The fixed interpreter and script, then every argument in the order
    given, each after one blank. *)
Fixpoint joined (args : list string) : string :=
  match args with
  | [] => EmptyString
  | a :: rest => (" " ++ a ++ joined rest)%string
  end.

Definition command_line (args : list string) : string :=
  (PREFIX ++ joined args)%string.

(** The arguments proper: the C strings [argv[1]], ..., [argv[argc-1]]. *)
Definition arguments (argv : list string) : list string :=
  map c_str (drop 1 argv).

(** The command line with its terminator fits the array. *)
Definition fits (args : list string) : bool :=
  String.length (command_line args) <? BUFSZ.

(** The command line with its terminator fits the array and the bytes
    behind it. *)
Definition room (behind : list ascii) (args : list string) : bool :=
  String.length (command_line args) <? BUFSZ + length behind.

(** The array that holds the string [s], zeros behind it. *)
Definition padded (s : string) : buffer :=
  list_ascii_of_string s ++ replicate (BUFSZ - String.length s) NUL.

(** The bytes the loop appends for [args]: for every argument one blank
    and the characters of the argument. *)
Fixpoint appended_bytes (args : list string) : nat :=
  match args with
  | [] => 0
  | a :: rest => 1 + String.length a + appended_bytes rest
  end.

(** The separator the loop puts before every argument. *)
Definition is_blank (c : ascii) : bool := Ascii.eqb c " "%char.

Fixpoint blank_free (s : string) : bool :=
  match s with
  | EmptyString => true
  | String c r => negb (is_blank c) && blank_free r
  end.

(** A string that is empty or begins with a blank. *)
Definition blank_led (x : string) : bool :=
  match x with
  | EmptyString => true
  | String c _ => is_blank c
  end.

(** ** Inputs used below *)

(** An argument of [n] letters. *)
Definition letters (n : nat) : string :=
  string_of_list_ascii (replicate n "a"%char).

(** The shortest single argument that no longer fits: 15 characters of
    the literal, one blank, 1008 letters and the terminator are 1025
    bytes. *)
Definition argv_too_long : list string := ["Vaultrunner"; letters 1008].

(** Sixty-four bytes of stack behind the array, of arbitrary content. *)
Definition some_stack : list ascii := replicate 64 "x"%char.

(** A shell whose command always terminates with the status word
    [status]. *)
Definition sh_const (status : Z) : string -> Z := fun _ => status.

(** ** Properties of an argument list, as the specification words them *)

(** The elements of [argv] reach the child as discrete arguments only if
    they can be read back from what [main] hands to the execution call:
    no other argument list may produce the same call. *)
Definition discrete (argv : list string) : Prop :=
  forall argv', main argv' = main argv -> arguments argv' = arguments argv.

(** The commands a run started in [w] has passed to [system]. *)
Definition spawned_by (w : world) (r : outcome Z * world) : list string :=
  drop (length (children w)) (children (snd r)).

(** One step of the sequencing of [outcome]. *)
Ltac step_bind := unfold mbind, outcome_bind; cbv beta iota.

(** ** Strings and their characters *)

Section Strings.

Implicit Types (s t : string) (c : ascii).

Lemma length_append s t :
  String.length (s ++ t) = String.length s + String.length t.
Proof. induction s as [|c s IH]; simpl; [done | by rewrite IH]. Qed.

Lemma chars_append s t :
  list_ascii_of_string (s ++ t)
  = list_ascii_of_string s ++ list_ascii_of_string t.
Proof. induction s as [|c s IH]; simpl; [done | by rewrite IH]. Qed.

Lemma length_chars s : length (list_ascii_of_string s) = String.length s.
Proof. induction s as [|c s IH]; simpl; [done | by rewrite IH]. Qed.

Lemma append_assoc s t u : ((s ++ t) ++ u = s ++ (t ++ u))%string.
Proof. induction s as [|c s IH]; simpl; [done | by rewrite IH]. Qed.

Lemma append_empty_r s : (s ++ "" = s)%string.
Proof. induction s as [|c s IH]; simpl; [done | by rewrite IH]. Qed.

Lemma nul_free_append s t :
  nul_free (s ++ t) = nul_free s && nul_free t.
Proof.
  induction s as [|c s IH]; simpl; [done|].
  rewrite IH. by destruct (is_nul c).
Qed.

Lemma nul_free_c_str s : nul_free (c_str s) = true.
Proof.
  induction s as [|c s IH]; simpl; [done|].
  destruct (is_nul c) eqn:E; simpl; [done | by rewrite E].
Qed.

Lemma c_str_nul_free s : nul_free s = true -> c_str s = s.
Proof.
  induction s as [|c s IH]; simpl; [done|].
  destruct (is_nul c); simpl; [done|]. intros H. by rewrite IH.
Qed.

Lemma is_nul_true c : is_nul c = true -> c = NUL.
Proof. apply Ascii.eqb_eq. Qed.

End Strings.

(** ** The library routines on a zero-padded array *)

Section Strcat.

Implicit Types (s t src : string) (pre : list ascii) (k off : nat).

Lemma store_padding pre k c :
  store (pre ++ replicate k NUL) (length pre) c
  = match k with
    | 0 => OutOfBounds (length pre)
    | S k' => Normal ((pre ++ [c]) ++ replicate k' NUL)
    end.
Proof.
  unfold store. rewrite length_app, length_replicate.
  destruct k as [|k']; simpl.
  - replace (length pre + 0) with (length pre) by lia.
    by rewrite Nat.ltb_irrefl.
  - assert ((length pre <? length pre + S k') = true) as ->
      by (apply Nat.ltb_lt; lia).
    f_equal. rewrite insert_app_r_alt by lia.
    rewrite Nat.sub_diag. simpl. by rewrite <- app_assoc.
Qed.

Lemma scan_nul_padding s k off :
  nul_free s = true ->
  scan_nul (list_ascii_of_string s ++ replicate (S k) NUL) off
  = Normal (off + String.length s).
Proof.
  revert off. induction s as [|c s IH]; intros off H; simpl in *.
  - f_equal. lia.
  - destruct (is_nul c); simpl in H; [done|].
    rewrite IH by done. f_equal. lia.
Qed.

Lemma copy_from_padding src pre k :
  copy_from (pre ++ replicate k NUL) (length pre) src
  = if String.length (c_str src) <? k
    then Normal (pre ++ list_ascii_of_string (c_str src)
                     ++ replicate (k - String.length (c_str src)) NUL)
    else OutOfBounds (length pre + k).
Proof.
  revert pre k. induction src as [|c r IH]; intros pre k.
  - simpl. rewrite store_padding. destruct k as [|k']; simpl.
    + f_equal. lia.
    + by rewrite <- app_assoc.
  - simpl. destruct (is_nul c) eqn:E.
    + rewrite store_padding. destruct k as [|k']; simpl.
      * f_equal. lia.
      * apply is_nul_true in E as ->. by rewrite <- app_assoc.
    + rewrite store_padding. destruct k as [|k']; simpl.
      * f_equal. lia.
      * specialize (IH (pre ++ [c]) k').
        rewrite length_app in IH. simpl in IH.
        replace (length pre + 1) with (S (length pre)) in IH by lia.
        step_bind. rewrite IH.
        change (S (String.length (c_str r)) <? S k')
          with (String.length (c_str r) <? k').
        destruct (String.length (c_str r) <? k').
        -- by rewrite <- app_assoc.
        -- f_equal. lia.
Qed.

(** [strcat] on an array that holds a string with zeros behind it. *)
Lemma strcat_padded s src :
  nul_free s = true ->
  String.length s < BUFSZ ->
  strcat (padded s) src
  = if String.length (s ++ c_str src) <? BUFSZ
    then Normal (padded (s ++ c_str src))
    else OutOfBounds BUFSZ.
Proof.
  intros Hs Hlen. unfold strcat, strlen, padded.
  destruct (BUFSZ - String.length s) as [|k] eqn:Ek; [lia|].
  rewrite scan_nul_padding by done.
  change (0 + String.length s) with (String.length s). step_bind.
  rewrite <- (length_chars s) at 1. rewrite copy_from_padding.
  rewrite length_append, chars_append, length_chars.
  destruct (String.length (c_str src) <? S k) eqn:E.
  - apply Nat.ltb_lt in E.
    assert ((String.length s + String.length (c_str src) <? BUFSZ) = true)
      as -> by (apply Nat.ltb_lt; lia).
    replace (BUFSZ - (String.length s + String.length (c_str src)))
      with (S k - String.length (c_str src)) by lia.
    by rewrite <- app_assoc.
  - apply Nat.ltb_ge in E.
    assert ((String.length s + String.length (c_str src) <? BUFSZ) = false)
      as -> by (apply Nat.ltb_ge; lia).
    f_equal. lia.
Qed.

Lemma read_str_padded s : nul_free s = true -> read_str (padded s) = s.
Proof.
  unfold padded. generalize (BUFSZ - String.length s) as k.
  induction s as [|c s IH]; intros k H; simpl in *.
  - by destruct k.
  - destruct (is_nul c); simpl in H; [done|]. by rewrite IH.
Qed.

Lemma length_padded s : String.length s <= BUFSZ -> length (padded s) = BUFSZ.
Proof.
  intros H. unfold padded.
  rewrite length_app, length_replicate, length_chars. lia.
Qed.

End Strcat.

(** ** The command buffer built by the loop *)

Section Build.

Implicit Types (s : string) (args : list string).

Lemma nul_free_joined args : nul_free (joined (map c_str args)) = true.
Proof.
  induction args as [|a rest IH]; simpl; [done|].
  by rewrite nul_free_append, nul_free_c_str, IH.
Qed.

Lemma nul_free_command_line args :
  nul_free (command_line (map c_str args)) = true.
Proof.
  unfold command_line. by rewrite nul_free_append, nul_free_joined.
Qed.

Lemma length_joined_cons a rest :
  String.length (joined (a :: rest))
  = 1 + String.length a + String.length (joined rest).
Proof. simpl. by rewrite length_append. Qed.

(** The loop, started on an array that holds [s]: every remaining
    argument is appended behind one blank, or a store leaves the
    array at offset [BUFSZ]. *)
Lemma append_args_padded args s :
  nul_free s = true ->
  String.length s < BUFSZ ->
  append_args (padded s) args
  = if String.length (s ++ joined (map c_str args)) <? BUFSZ
    then Normal (padded (s ++ joined (map c_str args)))
    else OutOfBounds BUFSZ.
Proof.
  revert s. induction args as [|a rest IH]; intros s Hs Hlen.
  - simpl. rewrite append_empty_r. by apply Nat.ltb_lt in Hlen as ->.
  - cbn [append_args map]. rewrite strcat_padded by done.
    change (c_str " ") with " ".
    assert (String.length (s ++ joined (c_str a :: map c_str rest))
            = String.length ((s ++ " ") ++ c_str a)
              + String.length (joined (map c_str rest))) as Hsum.
    { rewrite !length_append, length_joined_cons. simpl. lia. }
    destruct (String.length (s ++ " ") <? BUFSZ) eqn:E1; step_bind.
    + apply Nat.ltb_lt in E1.
      rewrite strcat_padded; [|by rewrite nul_free_append, Hs|done].
      destruct (String.length ((s ++ " ") ++ c_str a) <? BUFSZ) eqn:E2;
        step_bind.
      * apply Nat.ltb_lt in E2.
        rewrite IH;
          [|by rewrite !nul_free_append, Hs, nul_free_c_str|done].
        replace (((s ++ " ") ++ c_str a) ++ joined (map c_str rest))%string
          with (s ++ joined (c_str a :: map c_str rest))%string; [done|].
        simpl. by rewrite !append_assoc.
      * apply Nat.ltb_ge in E2.
        assert ((String.length (s ++ joined (c_str a :: map c_str rest))
                 <? BUFSZ) = false) as -> by (apply Nat.ltb_ge; lia).
        done.
    + apply Nat.ltb_ge in E1.
      assert ((String.length (s ++ joined (c_str a :: map c_str rest))
               <? BUFSZ) = false) as ->; [|done].
      apply Nat.ltb_ge. rewrite Hsum, length_append. lia.
Qed.

Lemma init_command_padded : init_command = padded PREFIX.
Proof. done. Qed.

(** Lines 8-14 in full: the array holds the command line when it fits,
    and otherwise [strcat] stores at [command[1024]]. *)
Lemma build_command_spec argv :
  build_command argv
  = if fits (arguments argv)
    then Normal (padded (command_line (arguments argv)))
    else OutOfBounds BUFSZ.
Proof.
  unfold build_command, fits, command_line, arguments.
  rewrite init_command_padded.
  apply append_args_padded; [done|]. unfold BUFSZ. simpl. lia.
Qed.

Lemma main_spec argv :
  main argv
  = if fits (arguments argv)
    then System (command_line (arguments argv)) (fun ret => Return ret)
    else Undefined BUFSZ.
Proof.
  unfold main. rewrite build_command_spec.
  destruct (fits (arguments argv)); [|done].
  unfold arguments. by rewrite read_str_padded by apply nul_free_command_line.
Qed.

Lemma run_spec sh argv w :
  run sh argv w
  = if fits (arguments argv)
    then (Normal (sh (command_line (arguments argv))),
          spawn (command_line (arguments argv)) w)
    else (OutOfBounds BUFSZ, w).
Proof.
  unfold run. rewrite main_spec. by destruct (fits (arguments argv)).
Qed.

End Build.

(** ** Status words *)

Section Status.

Import Posix.
Open Scope Z_scope.

Lemma exit_status_exited code : exit_status (W_EXITCODE code 0) = 0.
Proof.
  unfold exit_status, W_EXITCODE. rewrite Z.lor_0_r.
  change 255 with (Z.ones 8). rewrite Z.land_ones by lia.
  rewrite Z.shiftl_mul_pow2 by lia. apply Z_mod_mult.
Qed.

Lemma WEXITSTATUS_exited code :
  0 <= code <= 255 -> WEXITSTATUS (W_EXITCODE code 0) = code.
Proof.
  intros H. unfold WEXITSTATUS, W_EXITCODE. rewrite Z.lor_0_r.
  change 65280 with (Z.shiftl 255 8). rewrite <- Z.shiftl_land.
  rewrite Z.shiftr_shiftl_l by lia. rewrite Z.sub_diag, Z.shiftl_0_r.
  change 255 with (Z.ones 8). rewrite Z.land_ones by lia.
  apply Z.mod_small. lia.
Qed.

Lemma WIFEXITED_exited code : WIFEXITED (W_EXITCODE code 0) = true.
Proof.
  unfold WIFEXITED, WTERMSIG, W_EXITCODE. rewrite Z.lor_0_r.
  change 127 with (Z.ones 7). rewrite Z.land_ones by lia.
  rewrite Z.shiftl_mul_pow2 by lia.
  change (2 ^ 8) with (2 * 2 ^ 7). rewrite Z.mul_assoc, Z_mod_mult.
  done.
Qed.

End Status.

(** ** Effects of a run *)

Section Effects.

Implicit Types (sh : string -> Z) (argv : list string) (w : world).

Lemma spawned_by_spawn w c w' r :
  children w' = children w ++ [c] -> spawned_by w (r, w') = [c].
Proof.
  intros H. unfold spawned_by. simpl. rewrite H.
  by rewrite drop_app_length.
Qed.


(** Whenever the command line fits, the array holds the interpreter and
    the script followed by every argument, in the order given. *)
Lemma command_in_order argv :
  fits (arguments argv) = true ->
  build_command argv = Normal (padded (command_line (arguments argv))).
Proof. intros H. by rewrite build_command_spec, H. Qed.

Lemma joined_app (l1 l2 : list string) :
  joined (l1 ++ l2) = (joined l1 ++ joined l2)%string.
Proof.
  induction l1 as [|a l1 IH]; simpl; [done|].
  by rewrite IH, !append_assoc.
Qed.

Lemma c_str_append (a t : string) :
  nul_free a = true -> c_str (a ++ t) = (a ++ c_str t)%string.
Proof.
  induction a as [|c a IH]; simpl; [done|].
  destruct (is_nul c); simpl; [done|]. intros H. by rewrite IH.
Qed.

End Effects.

(** ** The claims *)

(** C1, counterexample.  For the arguments [--name], [a b], [--opt=x;y]
    the program issues the same call as for [--name], [a], [b],
    [--opt=x;y]: the element [a b] is not passed as one discrete
    argument. *)
Lemma embedded_blank_not_discrete :
  ~ discrete ["Vaultrunner"; "--name"; "a b"; "--opt=x;y"].
Proof.
  intros H.
  specialize (H ["Vaultrunner"; "--name"; "a"; "b"; "--opt=x;y"]).
  assert (arguments ["Vaultrunner"; "--name"; "a"; "b"; "--opt=x;y"]
          = arguments ["Vaultrunner"; "--name"; "a b"; "--opt=x;y"]) as E
    by (apply H; vm_compute; reflexivity).
  vm_compute in E. discriminate E.
Qed.

(** C2, the code on a child that exits normally.  [system] reports the
    exit code [N] of the child in bits 8 to 15 of the status word; [main]
    returns that word as it is, and the exit status of the process is its
    low eight bits: 0 for every [N], not [N]. *)
Theorem normal_exit_reported_as_zero (sh : string -> Z) (argv : list string)
    (w : world) (N : Z) :
  fits (arguments argv) = true ->
  (0 <= N <= 255)%Z ->
  sh (command_line (arguments argv)) = Posix.W_EXITCODE N 0 ->
  exists ret,
    fst (run sh argv w) = Normal ret
    /\ Posix.WIFEXITED ret = true
    /\ Posix.WEXITSTATUS ret = N
    /\ exit_code (run sh argv w) = Some 0%Z.
Proof.
  intros Hfit HN Hsh. exists (Posix.W_EXITCODE N 0).
  unfold exit_code. rewrite run_spec, Hfit. cbn [fst]. rewrite Hsh.
  split; [done|]. split; [apply WIFEXITED_exited|].
  split; [by apply WEXITSTATUS_exited|].
  by rewrite exit_status_exited.
Qed.

Lemma normal_exit_reported_as_zero_witness :
  fits (arguments ["Vaultrunner"]) = true
  /\ (0 <= 2 <= 255)%Z
  /\ sh_const 512 (command_line (arguments ["Vaultrunner"]))
     = Posix.W_EXITCODE 2 0
  /\ exists ret,
       fst (run (sh_const 512) ["Vaultrunner"] initial) = Normal ret
       /\ Posix.WIFEXITED ret = true
       /\ Posix.WEXITSTATUS ret = 2%Z
       /\ exit_code (run (sh_const 512) ["Vaultrunner"] initial) = Some 0%Z.
Proof.
  split; [reflexivity|]. split; [lia|]. split; [reflexivity|].
  apply (normal_exit_reported_as_zero (sh_const 512) ["Vaultrunner"] initial 2);
    [reflexivity | lia | reflexivity].
Defined.

(** C4, the code on every command line that does not fit.  The array has
    the valid offsets 0 to 1023; whenever the command line with its
    terminator needs more than 1024 bytes, [strcat] does not truncate:
    it stores at offset 1024, past the end of [command]. *)
Theorem oversize_command_overflows (argv : list string) :
  fits (arguments argv) = false ->
  length init_command = BUFSZ
  /\ build_command argv = OutOfBounds BUFSZ
  /\ store init_command BUFSZ NUL = OutOfBounds BUFSZ.
Proof.
  intros H. split; [done|]. split; [|done].
  by rewrite build_command_spec, H.
Qed.

Lemma oversize_command_overflows_witness :
  fits (arguments argv_too_long) = false
  /\ length init_command = BUFSZ
  /\ build_command argv_too_long = OutOfBounds BUFSZ
  /\ store init_command BUFSZ NUL = OutOfBounds BUFSZ.
Proof.
  split; [vm_compute; reflexivity|].
  apply (oversize_command_overflows argv_too_long).
  vm_compute; reflexivity.
Defined.

(** C6.  With no arguments supplied the array holds exactly
    [python3 main.py], that string is the command given to [system], and
    when the child then exits with code 0 the process exits with
    status 0. *)
Theorem no_arguments_forwarded_as_is (sh : string -> Z) (argv : list string)
    (w : world) :
  arguments argv = [] ->
  sh "python3 main.py" = Posix.W_EXITCODE 0 0 ->
  build_command argv = Normal (padded "python3 main.py")
  /\ main argv = System "python3 main.py" (fun ret => Return ret)
  /\ spawned_by w (run sh argv w) = ["python3 main.py"]
  /\ exit_code (run sh argv w) = Some 0%Z.
Proof.
  intros Hargs Hsh.
  pose proof (build_command_spec argv) as Hb.
  pose proof (main_spec argv) as Hm.
  pose proof (run_spec sh argv w) as Hr.
  rewrite Hargs in Hb, Hm, Hr.
  change (fits []) with true in Hb, Hm, Hr.
  change (command_line []) with "python3 main.py" in Hb, Hm, Hr.
  cbv iota in Hb, Hm, Hr.
  split; [done|]. split; [done|]. rewrite Hr.
  split; [by apply spawned_by_spawn|].
  unfold exit_code. cbn [fst]. by rewrite Hsh.
Qed.

Lemma no_arguments_forwarded_as_is_witness :
  arguments ["Vaultrunner"] = []
  /\ sh_const 0 "python3 main.py" = Posix.W_EXITCODE 0 0
  /\ build_command ["Vaultrunner"] = Normal (padded "python3 main.py")
  /\ main ["Vaultrunner"] = System "python3 main.py" (fun ret => Return ret)
  /\ spawned_by initial (run (sh_const 0) ["Vaultrunner"] initial)
     = ["python3 main.py"]
  /\ exit_code (run (sh_const 0) ["Vaultrunner"] initial) = Some 0%Z.
Proof.
  split; [reflexivity|]. split; [reflexivity|].
  apply (no_arguments_forwarded_as_is (sh_const 0) ["Vaultrunner"] initial);
    reflexivity.
Defined.

(** C9.  The argument lists [a b] and [a], [b] are different, yet the
    array built for them is the same and [main] gives [system] the same
    command [python3 main.py a b] for both. *)
Theorem command_not_injective :
  arguments ["Vaultrunner"; "a b"] <> arguments ["Vaultrunner"; "a"; "b"]
  /\ build_command ["Vaultrunner"; "a b"]
     = build_command ["Vaultrunner"; "a"; "b"]
  /\ main ["Vaultrunner"; "a b"]
     = System "python3 main.py a b" (fun ret => Return ret)
  /\ main ["Vaultrunner"; "a"; "b"]
     = System "python3 main.py a b" (fun ret => Return ret).
Proof.
  split; [by vm_compute|]. split; [by vm_compute|].
  split; by vm_compute.
Qed.

(** C10.  Whenever the command has been built, the value [main] returns
    is the value the call of [system] returned for it, unchanged. *)
Theorem returns_raw_status (sh : string -> Z) (argv : list string)
    (w : world) :
  fits (arguments argv) = true ->
  main argv = System (command_line (arguments argv)) (fun ret => Return ret)
  /\ fst (run sh argv w) = Normal (sh (command_line (arguments argv))).
Proof.
  intros H. by rewrite run_spec, main_spec, H.
Qed.

Lemma returns_raw_status_witness :
  fits (arguments ["Vaultrunner"; "build"; "--verbose"]) = true
  /\ main ["Vaultrunner"; "build"; "--verbose"]
     = System (command_line (arguments ["Vaultrunner"; "build"; "--verbose"]))
         (fun ret => Return ret)
  /\ fst (run (sh_const 512) ["Vaultrunner"; "build"; "--verbose"] initial)
     = Normal (sh_const 512
                 (command_line
                    (arguments ["Vaultrunner"; "build"; "--verbose"]))).
Proof.
  split; [reflexivity|].
  apply (returns_raw_status (sh_const 512)
           ["Vaultrunner"; "build"; "--verbose"] initial).
  reflexivity.
Defined.


(** ** The library routines on any array

    The array holds a string [u], its terminator, and behind it an
    arbitrary [tail]. *)

Section Routines.

Implicit Types (u s t src : string) (pre mid tail : list ascii) (off n : nat).

Lemma store_at_end pre mid c :
  store (pre ++ mid) (length pre) c
  = match mid with
    | [] => OutOfBounds (length pre)
    | _ :: mid' => Normal ((pre ++ [c]) ++ mid')
    end.
Proof.
  unfold store. rewrite length_app. destruct mid as [|x mid']; simpl.
  - rewrite Nat.add_0_r. by rewrite Nat.ltb_irrefl.
  - assert ((length pre <? length pre + S (length mid')) = true) as ->
      by (apply Nat.ltb_lt; lia).
    f_equal. rewrite insert_app_r_alt by lia.
    rewrite Nat.sub_diag. simpl. by rewrite <- app_assoc.
Qed.

Lemma scan_nul_terminated u tail off :
  nul_free u = true ->
  scan_nul (list_ascii_of_string u ++ NUL :: tail) off
  = Normal (off + String.length u).
Proof.
  revert off. induction u as [|c u IH]; intros off H; simpl in *.
  - f_equal. lia.
  - destruct (is_nul c); simpl in H; [done|].
    rewrite IH by done. f_equal. lia.
Qed.

Lemma copy_from_at_end src pre mid :
  copy_from (pre ++ mid) (length pre) src
  = if String.length (c_str src) <? length mid
    then Normal (pre ++ list_ascii_of_string (c_str src)
                     ++ NUL :: drop (S (String.length (c_str src))) mid)
    else OutOfBounds (length pre + length mid).
Proof.
  revert pre mid. induction src as [|c r IH]; intros pre mid.
  - simpl. rewrite store_at_end. destruct mid as [|x mid']; simpl.
    + f_equal. lia.
    + by rewrite <- app_assoc, drop_0.
  - simpl. destruct (is_nul c) eqn:E.
    + rewrite store_at_end. destruct mid as [|x mid']; simpl.
      * f_equal. lia.
      * by rewrite <- app_assoc, drop_0.
    + rewrite store_at_end. destruct mid as [|x mid'].
      * simpl. f_equal. lia.
      * specialize (IH (pre ++ [c]) mid').
        rewrite length_app in IH. simpl in IH.
        replace (length pre + 1) with (S (length pre)) in IH by lia.
        step_bind. rewrite IH.
        change (String.length (String c (c_str r)) <? length (x :: mid'))
          with (String.length (c_str r) <? length mid').
        destruct (String.length (c_str r) <? length mid').
        -- simpl. by rewrite <- app_assoc.
        -- simpl. f_equal. lia.
Qed.

(** [strcat] on any array that holds a terminated string. *)
Lemma strcat_terminated u tail src :
  nul_free u = true ->
  strcat (list_ascii_of_string u ++ NUL :: tail) src
  = if String.length (c_str src) <=? length tail
    then Normal (list_ascii_of_string (u ++ c_str src)
                   ++ NUL :: drop (String.length (c_str src)) tail)
    else OutOfBounds (String.length u + S (length tail)).
Proof.
  intros Hu. unfold strcat, strlen.
  rewrite scan_nul_terminated by done.
  change (0 + String.length u) with (String.length u). step_bind.
  rewrite <- (length_chars u) at 1. rewrite copy_from_at_end.
  change (String.length (c_str src) <? length (NUL :: tail))
    with (String.length (c_str src) <=? length tail).
  destruct (String.length (c_str src) <=? length tail).
  - by rewrite chars_append, <- app_assoc.
  - by rewrite length_chars.
Qed.

(** Every array on which the scan finds a terminator has that shape. *)
Lemma scan_nul_shape buf off k :
  scan_nul buf off = Normal k ->
  exists u tail,
    buf = list_ascii_of_string u ++ NUL :: tail
    /\ nul_free u = true /\ k = off + String.length u.
Proof.
  revert off. induction buf as [|c rest IH]; intros off; simpl; [done|].
  destruct (is_nul c) eqn:E.
  - intros [= <-]. apply is_nul_true in E as ->.
    exists EmptyString, rest. simpl. split; [done|]. split; [done | lia].
  - intros Hs. destruct (IH _ Hs) as (u & tail & -> & Hu & ->).
    exists (String c u), tail. simpl. rewrite E, Hu.
    split; [done|]. split; [done | lia].
Qed.

Lemma strlen_terminated buf n :
  strlen buf = Normal n ->
  exists u tail,
    buf = list_ascii_of_string u ++ NUL :: tail
    /\ nul_free u = true /\ String.length u = n.
Proof.
  intros Hs. destruct (scan_nul_shape _ _ _ Hs) as (u & tail & ? & ? & ->).
  by exists u, tail.
Qed.

(** Without a terminator the scan leaves the array at its end. *)
Lemma scan_nul_unterminated buf off k :
  scan_nul buf off = OutOfBounds k ->
  k = off + length buf /\ forallb (fun c => negb (is_nul c)) buf = true.
Proof.
  revert off. induction buf as [|c rest IH]; intros off; simpl.
  - intros [= <-]. split; [lia | done].
  - destruct (is_nul c); [done|]. intros Hs.
    destruct (IH _ Hs) as [-> ?]. split; [lia | done].
Qed.

Lemma read_str_terminated u tail :
  nul_free u = true ->
  read_str (list_ascii_of_string u ++ NUL :: tail) = u.
Proof.
  induction u as [|c u IH]; simpl; [done|].
  destruct (is_nul c); simpl; [done|]. intros H. by rewrite IH.
Qed.

Lemma strcat_strlen buf src b :
  strcat buf src = Normal b -> exists n, strlen buf = Normal n.
Proof.
  unfold strcat. destruct (strlen buf) as [n|k]; [by exists n | done].
Qed.

End Routines.

(** ** Further properties of the routines *)

(** X1.  [strlen] returns the offset of the first terminator: that
    offset lies in the array, holds a zero, and no earlier element does.
    On an array without a terminator the scan reads past its end. *)
Theorem strlen_first_terminator (buf : buffer) :
  match strlen buf with
  | Normal n =>
      n < length buf /\ buf !! n = Some NUL
      /\ forall i c, i < n -> buf !! i = Some c -> is_nul c = false
  | OutOfBounds k =>
      k = length buf /\ forall c, c ∈ buf -> is_nul c = false
  end.
Proof.
  destruct (strlen buf) as [n|k] eqn:Hs.
  - destruct (strlen_terminated _ _ Hs) as (u & tail & -> & Hu & <-).
    rewrite <- (length_chars u). split; [|split].
    + rewrite length_app. simpl. lia.
    + by rewrite list_lookup_middle.
    + intros i c Hi. rewrite lookup_app_l by done. clear Hs tail.
      revert i Hi. induction u as [|x u IH]; intros i Hi Hl; simpl in *;
        [lia|].
      destruct (is_nul x) eqn:E; simpl in Hu; [done|].
      destruct i as [|i]; simpl in Hl.
      * by injection Hl as <-.
      * apply (IH Hu i); [lia | done].
  - apply scan_nul_unterminated in Hs as [-> Hall]. split; [done|].
    intros c Hc. rewrite forallb_forall in Hall.
    apply list_elem_of_In, Hall in Hc. by destruct (is_nul c).
Qed.

(** X2.  [strcat] succeeds exactly when the string already in the array,
    the appended string and one terminator fit; otherwise the first
    store outside the array is the one at offset [length buf]. *)
Theorem strcat_room (buf : buffer) (n : nat) (src : string) :
  strlen buf = Normal n ->
  if n + String.length (c_str src) <? length buf
  then exists b, strcat buf src = Normal b
  else strcat buf src = OutOfBounds (length buf).
Proof.
  intros Hs. destruct (strlen_terminated _ _ Hs) as (u & tail & -> & Hu & <-).
  rewrite strcat_terminated by done.
  rewrite length_app, length_chars. simpl.
  destruct (String.length (c_str src) <=? length tail) eqn:E.
  - apply Nat.leb_le in E.
    assert ((String.length u + String.length (c_str src)
             <? String.length u + S (length tail)) = true) as ->
      by (apply Nat.ltb_lt; lia).
    eauto.
  - apply Nat.leb_gt in E.
    assert ((String.length u + String.length (c_str src)
             <? String.length u + S (length tail)) = false) as ->
      by (apply Nat.ltb_ge; lia).
    done.
Qed.

Lemma strcat_room_witness :
  strlen init_command = Normal 15
  /\ if 15 + String.length (c_str "build") <? length init_command
     then exists b, strcat init_command "build" = Normal b
     else strcat init_command "build" = OutOfBounds (length init_command).
Proof.
  split; [reflexivity|].
  apply (strcat_room init_command 15 "build"). reflexivity.
Defined.

(** X3.  A successful [strcat] appends in place: the array then reads
    as the old string followed by the new one, it keeps its length, the
    elements before the old terminator are untouched, and so are the
    elements behind the new terminator. *)
Theorem strcat_appends_in_place (buf b : buffer) (n : nat) (src : string) :
  strlen buf = Normal n ->
  strcat buf src = Normal b ->
  read_str b = (read_str buf ++ c_str src)%string
  /\ length b = length buf
  /\ strlen b = Normal (n + String.length (c_str src))
  /\ take n b = take n buf
  /\ drop (n + String.length (c_str src) + 1) b
     = drop (n + String.length (c_str src) + 1) buf.
Proof.
  intros Hs Hc.
  destruct (strlen_terminated _ _ Hs) as (u & tail & -> & Hu & <-).
  rewrite strcat_terminated in Hc by done.
  destruct (String.length (c_str src) <=? length tail) eqn:E; [|done].
  apply Nat.leb_le in E. injection Hc as <-.
  assert (nul_free (u ++ c_str src) = true) as Hn
    by (by rewrite nul_free_append, Hu, nul_free_c_str).
  rewrite !read_str_terminated by done.
  split; [done|]. split; [|split; [|split]].
  - rewrite !length_app, !length_chars, length_append. simpl.
    rewrite length_drop. lia.
  - unfold strlen. rewrite scan_nul_terminated by done.
    by rewrite length_append.
  - rewrite chars_append, <- app_assoc.
    rewrite <- (length_chars u). by rewrite !take_app_length.
  - rewrite (drop_app_add' _ _ (String.length u + String.length (c_str src)) 1)
      by (by rewrite length_chars, length_append).
    rewrite <- Nat.add_assoc.
    rewrite (drop_app_add' _ _ (String.length u)
               (String.length (c_str src) + 1))
      by (by rewrite length_chars).
    rewrite Nat.add_1_r. done.
Qed.

Lemma strcat_appends_in_place_witness :
  strlen init_command = Normal 15
  /\ strcat init_command " " = Normal (padded "python3 main.py ")
  /\ read_str (padded "python3 main.py ")
     = (read_str init_command ++ c_str " ")%string
  /\ length (padded "python3 main.py ") = length init_command
  /\ strlen (padded "python3 main.py ")
     = Normal (15 + String.length (c_str " "))
  /\ take 15 (padded "python3 main.py ") = take 15 init_command
  /\ drop (15 + String.length (c_str " ") + 1) (padded "python3 main.py ")
     = drop (15 + String.length (c_str " ") + 1) init_command.
Proof.
  split; [reflexivity|]. split; [reflexivity|].
  apply (strcat_appends_in_place init_command (padded "python3 main.py ")
           15 " "); reflexivity.
Defined.

(** X4.  Two calls of [strcat] in a row append what one call with the
    concatenated string appends, with the same outcome also when the
    second string no longer fits. *)
Theorem strcat_twice (buf b : buffer) (s t : string) :
  nul_free s = true ->
  strcat buf s = Normal b ->
  strcat b t = strcat buf (s ++ t).
Proof.
  intros Hs Hc. destruct (strcat_strlen _ _ _ Hc) as [n Hn].
  destruct (strlen_terminated _ _ Hn) as (u & tail & -> & Hu & <-).
  rewrite strcat_terminated in Hc by done.
  rewrite (c_str_nul_free s) in Hc by done.
  destruct (String.length s <=? length tail) eqn:E; [|done].
  apply Nat.leb_le in E. injection Hc as <-.
  rewrite !strcat_terminated;
    [|done|by rewrite nul_free_append, Hu, Hs].
  rewrite c_str_append by done.
  rewrite length_drop, !length_append, drop_drop, append_assoc.
  destruct (String.length (c_str t) <=? length tail - String.length s) eqn:E1.
  - apply Nat.leb_le in E1.
    assert ((String.length s + String.length (c_str t) <=? length tail) = true)
      as -> by (apply Nat.leb_le; lia).
    done.
  - apply Nat.leb_gt in E1.
    assert ((String.length s + String.length (c_str t) <=? length tail) = false)
      as -> by (apply Nat.leb_gt; lia).
    f_equal. lia.
Qed.

Lemma strcat_twice_witness :
  nul_free " " = true
  /\ strcat init_command " " = Normal (padded "python3 main.py ")
  /\ strcat (padded "python3 main.py ") "build"
     = strcat init_command (" " ++ "build").
Proof.
  split; [reflexivity|]. split; [reflexivity|].
  apply (strcat_twice init_command (padded "python3 main.py ") " " "build");
    reflexivity.
Defined.

(** ** Further properties of the loop *)

Section Loop.

Implicit Types (buf b : buffer) (args : list string).

Lemma store_length buf off c b :
  store buf off c = Normal b -> length b = length buf.
Proof.
  unfold store. destruct (off <? length buf); [|done].
  intros [= <-]. apply length_insert.
Qed.

Lemma copy_from_length src buf off b :
  copy_from buf off src = Normal b -> length b = length buf.
Proof.
  revert buf off. induction src as [|c r IH]; intros buf off; simpl.
  - apply store_length.
  - destruct (is_nul c); [apply store_length|].
    destruct (store buf off c) as [b1|k] eqn:E; [|done]. step_bind.
    intros H. apply IH in H. apply store_length in E. congruence.
Qed.

Lemma strcat_length buf src b :
  strcat buf src = Normal b -> length b = length buf.
Proof.
  unfold strcat. destruct (strlen buf) as [n|k]; [|done]. step_bind.
  apply copy_from_length.
Qed.

(** The loop over [l1 ++ l2] is the loop over [l1] followed by the loop
    over [l2]. *)
Lemma append_args_app buf (l1 l2 : list string) :
  append_args buf (l1 ++ l2)
  = b ← append_args buf l1; append_args b l2.
Proof.
  revert buf. induction l1 as [|a l1 IH]; intros buf; [done|].
  cbn [app append_args].
  destruct (strcat buf " ") as [b1|k]; [|done]. step_bind.
  destruct (strcat b1 a) as [b2|k]; [|done]. step_bind.
  apply IH.
Qed.

End Loop.

(** X5.  Arguments given later are appended to what the earlier ones
    left: the array for [l1 ++ l2] is the array for [l1] with the loop
    continued over [l2]. *)
Theorem build_continues (p : string) (l1 l2 : list string) :
  build_command (p :: l1 ++ l2)
  = b ← build_command (p :: l1); append_args b l2.
Proof.
  unfold build_command. rewrite !skipn_cons, !skipn_O.
  apply append_args_app.
Qed.

(** X6.  An overflow is final: when the arguments [l1] already make a
    store leave the array, so do [l1] followed by any further
    arguments, at the same offset. *)
Theorem overflow_is_final (p : string) (l1 l2 : list string) (k : nat) :
  build_command (p :: l1) = OutOfBounds k ->
  build_command (p :: l1 ++ l2) = OutOfBounds k.
Proof.
  unfold build_command. rewrite !skipn_cons, !skipn_O.
  intros H. by rewrite append_args_app, H.
Qed.

Lemma overflow_is_final_witness :
  build_command ("Vaultrunner" :: [letters 1008]) = OutOfBounds 1024
  /\ build_command ("Vaultrunner" :: [letters 1008] ++ ["build"])
     = OutOfBounds 1024.
Proof.
  split; [vm_compute; reflexivity|].
  apply (overflow_is_final "Vaultrunner" [letters 1008] ["build"] 1024).
  vm_compute; reflexivity.
Defined.

(** X7.  The loop never changes the size of the array it works on,
    whatever that array holds. *)
Theorem loop_keeps_size (buf b : buffer) (args : list string) :
  append_args buf args = Normal b ->
  length b = length buf.
Proof.
  revert buf. induction args as [|a rest IH]; intros buf; simpl.
  - by intros [= <-].
  - destruct (strcat buf " ") as [b1|k] eqn:E1; [|done]. step_bind.
    destruct (strcat b1 a) as [b2|k] eqn:E2; [|done]. step_bind.
    intros H. apply IH in H.
    apply strcat_length in E1, E2. congruence.
Qed.

Lemma loop_keeps_size_witness :
  append_args init_command ["build"; "--verbose"]
  = Normal (padded "python3 main.py build --verbose")
  /\ length (padded "python3 main.py build --verbose") = length init_command.
Proof.
  split; [reflexivity|].
  apply (loop_keeps_size init_command
           (padded "python3 main.py build --verbose") ["build"; "--verbose"]).
  reflexivity.
Defined.

(** ** Further properties of the command and of a run *)

Section Command.

Implicit Types (s t x y : string) (args : list string).

Lemma length_command_line args :
  String.length (command_line args)
  = String.length PREFIX + appended_bytes args.
Proof.
  unfold command_line. rewrite length_append. f_equal.
  induction args as [|a rest IH]; [done|].
  rewrite length_joined_cons, IH. done.
Qed.

Lemma command_line_middle (l1 l2 : list string) a :
  command_line (l1 ++ a :: l2)
  = (command_line l1 ++ " " ++ a ++ joined l2)%string.
Proof.
  unfold command_line. rewrite joined_app. cbn [joined].
  by rewrite !append_assoc.
Qed.

Lemma build_command_fits argv command :
  build_command argv = Normal command ->
  fits (arguments argv) = true
  /\ command = padded (command_line (arguments argv)).
Proof.
  rewrite build_command_spec. destruct (fits (arguments argv)); [|done].
  by intros [= <-].
Qed.

Lemma blank_led_joined args : blank_led (joined args) = true.
Proof. by destruct args. Qed.

Lemma blank_free_split s t x y :
  blank_free s = true -> blank_free t = true ->
  blank_led x = true -> blank_led y = true ->
  (s ++ x = t ++ y)%string -> s = t /\ x = y.
Proof.
  revert t. induction s as [|c s IH]; intros [|d t] Hs Ht Hx Hy; simpl in *.
  - done.
  - intros ->. simpl in Hx. rewrite Hx in Ht. done.
  - intros <-. simpl in Hy. rewrite Hy in Hs. done.
  - intros [= -> H].
    apply andb_prop in Hs as [_ Hs]. apply andb_prop in Ht as [_ Ht].
    destruct (IH t Hs Ht Hx Hy H) as [-> ->]. done.
Qed.

Lemma joined_inj (l1 l2 : list string) :
  forallb blank_free l1 = true -> forallb blank_free l2 = true ->
  joined l1 = joined l2 -> l1 = l2.
Proof.
  revert l2. induction l1 as [|a l1 IH]; intros [|b l2] H1 H2; simpl in *;
    [done..|].
  intros [= H].
  apply andb_prop in H1 as [Ha H1]. apply andb_prop in H2 as [Hb H2].
  destruct (blank_free_split a b _ _ Ha Hb (blank_led_joined l1)
              (blank_led_joined l2) H) as [-> Hj].
  f_equal. by apply IH.
Qed.

End Command.

(** X8.  The array is built without a store outside it exactly when the
    15 characters of the literal, one blank and the characters of every
    argument, and the terminator are at most 1024 bytes; an empty
    argument still costs its blank. *)
Theorem build_succeeds_iff (argv : list string) :
  (exists command, build_command argv = Normal command)
  <-> 15 + appended_bytes (arguments argv) + 1 <= 1024.
Proof.
  rewrite build_command_spec. unfold fits.
  rewrite length_command_line.
  change (String.length PREFIX) with 15. change BUFSZ with 1024.
  destruct (15 + appended_bytes (arguments argv) <? 1024) eqn:E.
  - apply Nat.ltb_lt in E. split; [lia | eauto].
  - apply Nat.ltb_ge in E. split; [by intros [? ?] | lia].
Qed.

(** X9.  In a command that was built, every argument stands verbatim,
    neither quoted nor escaped: behind the command line of the
    arguments before it and one blank, and before the later arguments,
    each with its own blank. *)
Theorem argument_at_its_place (argv : list string) (command : buffer)
    (i : nat) (a : string) :
  build_command argv = Normal command ->
  arguments argv !! i = Some a ->
  read_str command
  = (command_line (take i (arguments argv)) ++ " " ++ a
     ++ joined (drop (S i) (arguments argv)))%string.
Proof.
  intros Hb Hi. apply build_command_fits in Hb as [_ ->].
  unfold arguments at 1. rewrite read_str_padded by apply nul_free_command_line.
  fold (arguments argv).
  rewrite <- (take_drop_middle _ _ _ Hi) at 1. apply command_line_middle.
Qed.

Lemma argument_at_its_place_witness :
  build_command ["Vaultrunner"; "build"; "--opt=x;y"; "last"]
  = Normal (padded "python3 main.py build --opt=x;y last")
  /\ arguments ["Vaultrunner"; "build"; "--opt=x;y"; "last"] !! 1
     = Some "--opt=x;y"
  /\ read_str (padded "python3 main.py build --opt=x;y last")
     = (command_line
          (take 1 (arguments ["Vaultrunner"; "build"; "--opt=x;y"; "last"]))
        ++ " " ++ "--opt=x;y"
        ++ joined
             (drop 2 (arguments ["Vaultrunner"; "build"; "--opt=x;y"; "last"])))%string.
Proof.
  split; [reflexivity|]. split; [reflexivity|].
  apply (argument_at_its_place ["Vaultrunner"; "build"; "--opt=x;y"; "last"]
           (padded "python3 main.py build --opt=x;y last") 1 "--opt=x;y");
    reflexivity.
Defined.

(** X12.  Arguments without blanks keep their boundaries: when two
    argument lists, no element of which holds a blank, lead to the same
    call of [system], they are the same list. *)
Theorem blank_free_arguments_recoverable (argv1 argv2 : list string) :
  forallb blank_free (arguments argv1) = true ->
  forallb blank_free (arguments argv2) = true ->
  fits (arguments argv1) = true ->
  main argv1 = main argv2 ->
  arguments argv1 = arguments argv2.
Proof.
  intros H1 H2 Hfit. rewrite !main_spec, Hfit.
  destruct (fits (arguments argv2)); [|done].
  intros [= H]. by apply joined_inj.
Qed.

Lemma blank_free_arguments_recoverable_witness :
  forallb blank_free (arguments ["Vaultrunner"; "build"; ""; "--opt=x;y"]) = true
  /\ forallb blank_free (arguments ["vr"; "build"; ""; "--opt=x;y"]) = true
  /\ fits (arguments ["Vaultrunner"; "build"; ""; "--opt=x;y"]) = true
  /\ main ["Vaultrunner"; "build"; ""; "--opt=x;y"]
     = main ["vr"; "build"; ""; "--opt=x;y"]
  /\ arguments ["Vaultrunner"; "build"; ""; "--opt=x;y"]
     = arguments ["vr"; "build"; ""; "--opt=x;y"].
Proof.
  split; [reflexivity|]. split; [reflexivity|]. split; [reflexivity|].
  split; [reflexivity|].
  apply (blank_free_arguments_recoverable
           ["Vaultrunner"; "build"; ""; "--opt=x;y"]
           ["vr"; "build"; ""; "--opt=x;y"]); reflexivity.
Defined.

(** X13.  After a successful build the array still has its 1024
    elements and every element from the terminator of the command on is
    zero: the loop leaves nothing behind the string it built. *)
Theorem built_array_zero_padded (argv : list string) (command : buffer)
    (i : nat) :
  build_command argv = Normal command ->
  String.length (read_str command) <= i < BUFSZ ->
  length command = BUFSZ /\ command !! i = Some NUL.
Proof.
  intros Hb Hi. apply build_command_fits in Hb as [Hfit ->].
  unfold arguments in Hi.
  rewrite read_str_padded in Hi by apply nul_free_command_line.
  fold (arguments argv) in Hi.
  apply Nat.ltb_lt in Hfit.
  split; [apply length_padded; lia|].
  unfold padded. rewrite lookup_app_r by (rewrite length_chars; lia).
  apply lookup_replicate_2. rewrite length_chars. lia.
Qed.

Lemma built_array_zero_padded_witness :
  build_command ["Vaultrunner"; "build"] = Normal (padded "python3 main.py build")
  /\ String.length (read_str (padded "python3 main.py build")) <= 21 < BUFSZ
  /\ length (padded "python3 main.py build") = BUFSZ
  /\ padded "python3 main.py build" !! 21 = Some NUL.
Proof.
  assert (String.length (read_str (padded "python3 main.py build")) <= 21 < BUFSZ)
    as H by (vm_compute; lia).
  split; [reflexivity|]. split; [exact H|].
  exact (built_array_zero_padded ["Vaultrunner"; "build"]
           (padded "python3 main.py build") 21 eq_refl H).
Defined.

(** ** The loop on the array and the stack behind it *)

Section Stack.

Implicit Types (behind tail : list ascii) (s : string) (args : list string).

(** The loop on any memory that holds a terminated string: the
    arguments are appended as long as the memory lasts. *)
Lemma append_args_terminated args s tail :
  nul_free s = true ->
  append_args (list_ascii_of_string s ++ NUL :: tail) args
  = if String.length (joined (map c_str args)) <=? length tail
    then Normal (list_ascii_of_string (s ++ joined (map c_str args))
                   ++ NUL :: drop (String.length (joined (map c_str args))) tail)
    else OutOfBounds (String.length s + S (length tail)).
Proof.
  revert s tail. induction args as [|a rest IH]; intros s tail Hs.
  - simpl. by rewrite append_empty_r, drop_0.
  - cbn [append_args map]. rewrite strcat_terminated by done.
    change (c_str " ") with " ". rewrite length_joined_cons.
    change (String.length " ") with 1.
    destruct (1 <=? length tail) eqn:E1; step_bind.
    + apply Nat.leb_le in E1.
      rewrite strcat_terminated by (by rewrite nul_free_append, Hs).
      rewrite length_drop.
      destruct (String.length (c_str a) <=? length tail - 1) eqn:E2;
        step_bind.
      * apply Nat.leb_le in E2.
        rewrite IH by (by rewrite !nul_free_append, Hs, nul_free_c_str).
        rewrite !length_drop, !drop_drop, !length_append.
        change (String.length " ") with 1.
        destruct (String.length (joined (map c_str rest))
                  <=? length tail - 1 - String.length (c_str a)) eqn:E3.
        -- apply Nat.leb_le in E3.
           assert ((1 + String.length (c_str a)
                    + String.length (joined (map c_str rest))
                    <=? length tail) = true) as ->
             by (apply Nat.leb_le; lia).
           cbn [joined]. rewrite !append_assoc.
           by rewrite Nat.add_assoc.
        -- apply Nat.leb_gt in E3.
           assert ((1 + String.length (c_str a)
                    + String.length (joined (map c_str rest))
                    <=? length tail) = false) as ->
             by (apply Nat.leb_gt; lia).
           f_equal. lia.
      * apply Nat.leb_gt in E2.
        assert ((1 + String.length (c_str a)
                 + String.length (joined (map c_str rest))
                 <=? length tail) = false) as ->
          by (apply Nat.leb_gt; lia).
        f_equal. rewrite length_append. simpl. lia.
    + apply Nat.leb_gt in E1.
      assert ((1 + String.length (c_str a)
               + String.length (joined (map c_str rest))
               <=? length tail) = false) as ->
        by (apply Nat.leb_gt; lia).
      done.
Qed.

Lemma declare_command_terminated behind :
  declare_command behind
  = list_ascii_of_string PREFIX ++ NUL :: (replicate 1008 NUL ++ behind).
Proof.
  unfold declare_command, init_command. by rewrite <- app_assoc.
Qed.

Lemma room_joined behind args :
  room behind args
  = (String.length (joined args) <=? length (replicate 1008 NUL ++ behind)).
Proof.
  unfold room, command_line.
  rewrite length_append, length_app, length_replicate.
  change (String.length PREFIX) with 15. change BUFSZ with 1024.
  destruct (String.length (joined args) <=? 1008 + length behind) eqn:E.
  - apply Nat.leb_le in E. apply Nat.ltb_lt. lia.
  - apply Nat.leb_gt in E. apply Nat.ltb_ge. lia.
Qed.

Lemma fits_room behind args : fits args = true -> room behind args = true.
Proof.
  unfold fits, room. intros H%Nat.ltb_lt. apply Nat.ltb_lt. lia.
Qed.

(** Lines 8-14 on the stack: the memory holds the command line and its
    terminator when there is room for them, and otherwise a store
    leaves the memory at its end. *)
Lemma build_on_spec behind argv :
  build_on behind argv
  = if room behind (arguments argv)
    then Normal (list_ascii_of_string (command_line (arguments argv))
                   ++ NUL :: drop (String.length (joined (arguments argv)))
                               (replicate 1008 NUL ++ behind))
    else OutOfBounds (BUFSZ + length behind).
Proof.
  unfold build_on. rewrite declare_command_terminated.
  rewrite append_args_terminated by done.
  rewrite room_joined. fold (arguments argv).
  destruct (String.length (joined (arguments argv))
            <=? length (replicate 1008 NUL ++ behind)); [done|].
  unfold BUFSZ. rewrite length_app, length_replicate.
  change (String.length PREFIX) with 15. f_equal; lia.
Qed.

Lemma main_on_spec behind argv :
  main_on behind argv
  = if room behind (arguments argv)
    then System (command_line (arguments argv))
           (if fits (arguments argv)
            then fun ret => Return ret
            else fun _ => Undefined BUFSZ)
    else Undefined (BUFSZ + length behind).
Proof.
  unfold main_on. rewrite build_on_spec.
  destruct (room behind (arguments argv)); [|done].
  assert (forall tail,
            read_str (list_ascii_of_string (command_line (arguments argv))
                        ++ NUL :: tail)
            = command_line (arguments argv)) as ->; [|done].
  intros tail. unfold arguments.
  apply read_str_terminated, nul_free_command_line.
Qed.

(** On a command line that fits the array, the stack behind the array
    plays no part. *)
Lemma main_on_fits behind argv :
  fits (arguments argv) = true -> main_on behind argv = main argv.
Proof.
  intros H. rewrite main_on_spec, main_spec, H.
  by rewrite fits_room.
Qed.


Lemma run_on_fits behind sh argv w :
  fits (arguments argv) = true ->
  run_on behind sh argv w
  = (Normal (sh (command_line (arguments argv))),
     spawn (command_line (arguments argv)) w).
Proof.
  intros H. unfold run_on. rewrite main_on_fits by done.
  fold (run sh argv w). by rewrite run_spec, H.
Qed.

End Stack.

Lemma build_on_nil (argv : list string) : build_on [] argv = build_command argv.
Proof. unfold build_on, build_command, declare_command. by rewrite app_nil_r. Qed.

Lemma main_on_nil (argv : list string) : main_on [] argv = main argv.
Proof.
  rewrite main_on_spec, main_spec.
  assert (room [] (arguments argv) = fits (arguments argv)) as ->
    by (unfold room, fits; f_equal; unfold BUFSZ; simpl; lia).
  destruct (fits (arguments argv)); [done|].
  f_equal.
Qed.

(** ** The claims, continued *)

(** C1 (as amended).  The arguments are not handed over as discrete
    elements.  Each is appended, behind one blank, to the single string
    that [main] gives to [system]; an argument [a b] with an embedded
    blank therefore produces exactly the call, with exactly the command
    string, that the two arguments [a] and [b] produce. *)
Theorem blank_joins_arguments (p : string) (pre post : list string)
    (a b : string) :
  nul_free a = true ->
  fits (arguments (p :: pre ++ a :: b :: post)) = true ->
  main (p :: pre ++ a :: b :: post)
  = System (command_line (map c_str pre) ++ " " ++ a ++ " " ++ c_str b
            ++ joined (map c_str post))%string
      (fun ret => Return ret)
  /\ main (p :: pre ++ (a ++ " " ++ b)%string :: post)
     = main (p :: pre ++ a :: b :: post).
Proof.
  intros Ha Hfit.
  assert (command_line (arguments (p :: pre ++ a :: b :: post))
          = (command_line (map c_str pre) ++ " " ++ a ++ " " ++ c_str b
             ++ joined (map c_str post))%string) as E1.
  { unfold arguments. rewrite skipn_cons, skipn_O, map_app. cbn [map].
    rewrite command_line_middle, (c_str_nul_free a) by done. done. }
  assert (command_line (arguments (p :: pre ++ (a ++ " " ++ b)%string :: post))
          = command_line (arguments (p :: pre ++ a :: b :: post))) as E2.
  { rewrite E1. unfold arguments. rewrite skipn_cons, skipn_O, map_app.
    cbn [map]. rewrite command_line_middle, c_str_append by done.
    change (c_str (" " ++ b)) with (" " ++ c_str b)%string.
    by rewrite !append_assoc. }
  rewrite !main_spec. unfold fits in *. rewrite E2, Hfit, E1. done.
Qed.

Lemma blank_joins_arguments_witness :
  nul_free "a" = true
  /\ fits (arguments ("Vaultrunner" :: ["--name"] ++ "a" :: "b" :: ["--opt=x;y"]))
     = true
  /\ main ("Vaultrunner" :: ["--name"] ++ "a" :: "b" :: ["--opt=x;y"])
     = System (command_line (map c_str ["--name"]) ++ " " ++ "a" ++ " "
               ++ c_str "b" ++ joined (map c_str ["--opt=x;y"]))%string
         (fun ret => Return ret)
  /\ main ("Vaultrunner" :: ["--name"] ++ ("a" ++ " " ++ "b")%string
             :: ["--opt=x;y"])
     = main ("Vaultrunner" :: ["--name"] ++ "a" :: "b" :: ["--opt=x;y"]).
Proof.
  split; [reflexivity|]. split; [reflexivity|].
  apply (blank_joins_arguments "Vaultrunner" ["--name"] ["--opt=x;y"] "a" "b");
    reflexivity.
Defined.



(** C5, the code on a missing interpreter.  The shell that cannot find
    [python3] ends with code 127, which [system] reports in bits 8 to
    15 of the status word; [main] returns the word as it is and the
    exit status of the process is 0, not a non-zero sentinel. *)
Theorem missing_interpreter_exit_zero (sh : string -> Z)
    (argv : list string) (w : world) :
  fits (arguments argv) = true ->
  sh (command_line (arguments argv))
  = Posix.W_EXITCODE Posix.SH_NOT_FOUND 0 ->
  exists ret,
    fst (run sh argv w) = Normal ret
    /\ Posix.WIFEXITED ret = true
    /\ Posix.WEXITSTATUS ret = Posix.SH_NOT_FOUND
    /\ exit_code (run sh argv w) = Some 0%Z.
Proof.
  intros Hfit Hsh. exists (Posix.W_EXITCODE Posix.SH_NOT_FOUND 0).
  unfold exit_code. rewrite run_spec, Hfit. cbn [fst]. rewrite Hsh.
  split; [done|]. split; [apply WIFEXITED_exited|].
  split; [by apply WEXITSTATUS_exited|].
  by rewrite exit_status_exited.
Qed.

Lemma missing_interpreter_exit_zero_witness :
  fits (arguments ["Vaultrunner"; "build"]) = true
  /\ sh_const 32512 (command_line (arguments ["Vaultrunner"; "build"]))
     = Posix.W_EXITCODE Posix.SH_NOT_FOUND 0
  /\ exists ret,
       fst (run (sh_const 32512) ["Vaultrunner"; "build"] initial) = Normal ret
       /\ Posix.WIFEXITED ret = true
       /\ Posix.WEXITSTATUS ret = Posix.SH_NOT_FOUND
       /\ exit_code (run (sh_const 32512) ["Vaultrunner"; "build"] initial)
          = Some 0%Z.
Proof.
  split; [reflexivity|]. split; [reflexivity|].
  apply (missing_interpreter_exit_zero (sh_const 32512)
           ["Vaultrunner"; "build"] initial); reflexivity.
Defined.

(** C7.  Two runs with the same arguments against the same shell, a
    function of the command line alone, pass the same command to
    [system], namely the command line of the arguments, and end with
    the same result and the same exit status, namely the status the
    shell gives for it.  Neither the name each run was started under,
    nor what the stack holds behind the array, nor the state of the
    environment when the run starts makes a difference. *)
Theorem two_runs_agree (sh : string -> Z) (p1 p2 : string)
    (args : list string) (behind1 behind2 : list ascii) (w1 w2 : world) :
  fits (arguments (p1 :: args)) = true ->
  spawned_by w1 (run_on behind1 sh (p1 :: args) w1)
  = [command_line (map c_str args)]
  /\ spawned_by w2 (run_on behind2 sh (p2 :: args) w2)
     = [command_line (map c_str args)]
  /\ fst (run_on behind1 sh (p1 :: args) w1)
     = Normal (sh (command_line (map c_str args)))
  /\ fst (run_on behind2 sh (p2 :: args) w2)
     = fst (run_on behind1 sh (p1 :: args) w1)
  /\ exit_code (run_on behind2 sh (p2 :: args) w2)
     = exit_code (run_on behind1 sh (p1 :: args) w1).
Proof.
  intros H.
  assert (arguments (p1 :: args) = map c_str args) as E1 by done.
  assert (arguments (p2 :: args) = map c_str args) as E2 by done.
  assert (fits (arguments (p2 :: args)) = true) as H2 by (by rewrite E2, <- E1).
  unfold exit_code.
  rewrite (run_on_fits behind1 sh (p1 :: args) w1 H).
  rewrite (run_on_fits behind2 sh (p2 :: args) w2 H2).
  rewrite E1, E2. cbn [fst].
  split; [by apply spawned_by_spawn|].
  split; [by apply spawned_by_spawn|]. done.
Qed.

Lemma two_runs_agree_witness :
  fits (arguments ("Vaultrunner" :: ["build"; "--verbose"])) = true
  /\ spawned_by initial
       (run_on [] (sh_const 512) ("Vaultrunner" :: ["build"; "--verbose"])
          initial)
     = [command_line (map c_str ["build"; "--verbose"])]
  /\ spawned_by (spawn "earlier" initial)
       (run_on some_stack (sh_const 512) ("./vr" :: ["build"; "--verbose"])
          (spawn "earlier" initial))
     = [command_line (map c_str ["build"; "--verbose"])]
  /\ fst (run_on [] (sh_const 512) ("Vaultrunner" :: ["build"; "--verbose"])
            initial)
     = Normal (sh_const 512 (command_line (map c_str ["build"; "--verbose"])))
  /\ fst (run_on some_stack (sh_const 512) ("./vr" :: ["build"; "--verbose"])
            (spawn "earlier" initial))
     = fst (run_on [] (sh_const 512) ("Vaultrunner" :: ["build"; "--verbose"])
              initial)
  /\ exit_code
       (run_on some_stack (sh_const 512) ("./vr" :: ["build"; "--verbose"])
          (spawn "earlier" initial))
     = exit_code
         (run_on [] (sh_const 512) ("Vaultrunner" :: ["build"; "--verbose"])
            initial).
Proof.
  split; [reflexivity|].
  apply (two_runs_agree (sh_const 512) "Vaultrunner" "./vr"
           ["build"; "--verbose"] [] some_stack initial
           (spawn "earlier" initial)).
  reflexivity.
Defined.




